(** * Model Card Toolkit

    A shallow embedding of the toolkit's packaging script [setup.py] (the
    two distutils commands it installs) and of the model-card core that the
    design document describes: the data model, the merger, the schema
    registry and the migrator.

    Layout: definitions first (one module per component), then the
    theorems. *)

From stdpp Require Import gmap strings list fin_maps.
From Stdlib Require Import QArith.

#[local] Close Scope Q_scope.
#[local] Open Scope string_scope.
#[local] Open Scope list_scope.

(** ** Part I: definitions *)

(** *** setup.py *)

Module Setup.

(** Python values of type [str | None], as [spawn.find_executable] returns
    them. *)
Definition PyStr := option string.

(** Python's truth test on such a value: [None] and the empty string are
    false, every other string is true. *)
Definition py_truthy (v : PyStr) : bool :=
  match v with
  | None => false
  | Some s => negb (String.eqb s EmptyString)
  end.

Definition py_not (v : PyStr) : bool := negb (py_truthy v).

(** What the script asks of its host: [distutils.spawn.find_executable]
    and [platform.system].  Both belong to the Python distribution, not to
    the script, and are taken as given. *)
Record Host := {
  find_executable : string → PyStr;
  platform_system : string
}.

(** The calls a command makes to the host, in the order it makes them. *)
Inductive Call :=
  | CallFindExecutable (name : string)
  | CallPlatformSystem.

Inductive Exn :=
  | RuntimeError (msg : string)
  | AttributeError (attr : string).

(** The attributes [_BazelBuildCommand] keeps on [self].  An attribute is
    [None] until the first assignment to it ([initialize_options] assigns
    nothing). *)
Record _BazelBuildCommand := {
  _bazel_cmd : option PyStr;
  _additional_build_options : option (list string)
}.

Definition initialize_options : _BazelBuildCommand :=
  {| _bazel_cmd := None; _additional_build_options := None |}.

(** The state a method runs in: the object and the host calls so far. *)
Record State := {
  self : _BazelBuildCommand;
  calls : list Call
}.

Inductive Outcome (A : Type) :=
  | Returned (a : A)
  | Raised (e : Exn).
Arguments Returned {A} a.
Arguments Raised {A} e.

(** A method body: state in, outcome and state out.  A raised exception
    keeps the state reached so far (assignments to [self] are not undone). *)
Definition M (A : Type) : Type := State → Outcome A * State.

#[export] Instance M_ret : MRet M := λ A a s, (Returned a, s).
#[export] Instance M_bind : MBind M := λ A B f m s,
  match m s with
  | (Returned a, s') => f a s'
  | (Raised e, s') => (Raised e, s')
  end.

Definition raise {A} (e : Exn) : M A := λ s, (Raised e, s).

Definition log (c : Call) : M unit :=
  λ s, (Returned tt, {| self := self s; calls := calls s ++ [c] |}).

Definition spawn_find_executable (h : Host) (name : string) : M PyStr :=
  log (CallFindExecutable name);; mret (find_executable h name).

Definition platform_system_call (h : Host) : M string :=
  log CallPlatformSystem;; mret (platform_system h).

Definition set_bazel_cmd (v : PyStr) : M unit :=
  λ s, (Returned tt,
        {| self := {| _bazel_cmd := Some v;
                      _additional_build_options :=
                        _additional_build_options (self s) |};
           calls := calls s |}).

Definition get_bazel_cmd : M PyStr :=
  λ s, match _bazel_cmd (self s) with
       | Some v => (Returned v, s)
       | None => (Raised (AttributeError "_bazel_cmd"), s)
       end.

Definition set_additional_build_options (v : list string) : M unit :=
  λ s, (Returned tt,
        {| self := {| _bazel_cmd := _bazel_cmd (self s);
                      _additional_build_options := Some v |};
           calls := calls s |}).

Definition dquote : string := String (Ascii.ascii_of_nat 34) EmptyString.

Definition bazel_missing_msg : string :=
  "Could not find " ++ dquote ++ "bazel" ++ dquote ++ " or " ++ dquote
  ++ "bazelisk" ++ dquote ++ " binary. Please visit "
  ++ "https://docs.bazel.build/versions/master/install.html for "
  ++ "installation instruction.".

(** [_BazelBuildCommand.finalize_options]. *)
Definition finalize_options (h : Host) : M unit :=
  c ← spawn_find_executable h "bazel";
  set_bazel_cmd c;;
  c ← get_bazel_cmd;
  (if py_not c
   then c' ← spawn_find_executable h "bazelisk"; set_bazel_cmd c'
   else mret tt);;
  c ← get_bazel_cmd;
  (if py_not c then raise (RuntimeError bazel_missing_msg) else mret tt);;
  set_additional_build_options [];;
  sys ← platform_system_call h;
  if String.eqb sys "Darwin"
  then set_additional_build_options ["--macos_minimum_os=10.9"]
  else mret tt.

(** An executable is found when the lookup yields a file name, that is a
    value the script's [not] test takes as true. *)
Definition found (h : Host) (name : string) : Prop :=
  py_truthy (find_executable h name) = true.

Definition raises_RuntimeError {A} (o : Outcome A) : Prop :=
  ∃ msg, o = Raised (RuntimeError msg).

(** The options [finalize_options] ends with on a host whose
    [platform.system()] is [sys]. *)
Definition options_on (sys : string) : list string :=
  if String.eqb sys "Darwin" then ["--macos_minimum_os=10.9"] else [].

(** The state after [cs] more host calls with [v] kept as the command,
    before and after the options have been set. *)
Definition with_cmd (s : State) (v : PyStr) (cs : list Call) : State :=
  {| self := {| _bazel_cmd := Some v;
                _additional_build_options :=
                  _additional_build_options (self s) |};
     calls := calls s ++ cs |}.

Definition finished (s : State) (h : Host) (v : PyStr) (cs : list Call)
    : State :=
  {| self := {| _bazel_cmd := Some v;
                _additional_build_options :=
                  Some (options_on (platform_system h)) |};
     calls := calls s ++ cs |}.

(** A macOS host with [bazel] installed, and a fresh command object. *)
Definition darwin_host : Host :=
  {| find_executable := λ name,
       if String.eqb name "bazel" then Some "/usr/local/bin/bazel" else None;
     platform_system := "Darwin" |}.

Definition fresh : State := {| self := initialize_options; calls := [] |}.

(** [_BuildCommand]: the [build] command with [bazel_build] put in front
    of the sub-commands of distutils' own [build.build]. *)
Section _BuildCommand.

(** The command object and the sub-command list of [build.build]; each
    entry is a command name and a predicate method, which may be [None]. *)
Variable Cmd : Type.
Variable build_sub_commands : list (string * option (Cmd → bool)).

Definition _build_cc_extensions (self : Cmd) : bool := true.

Definition sub_commands : list (string * option (Cmd → bool)) :=
  [("bazel_build", Some _build_cc_extensions)] ++ build_sub_commands.

(** [Command.get_sub_commands] of distutils: the names of the
    sub-commands whose predicate is [None] or holds of [self], in list
    order.  [build.run] runs exactly these, one after the other. *)
Fixpoint get_sub_commands
    (subs : list (string * option (Cmd → bool))) (self : Cmd) : list string :=
  match subs with
  | [] => []
  | (cmd_name, method) :: rest =>
      let selected := match method with
                      | None => true
                      | Some m => m self
                      end in
      if selected then cmd_name :: get_sub_commands rest self
      else get_sub_commands rest self
  end.

End _BuildCommand.

End Setup.

(** *** setup.py: [_BazelBuildCommand.run] *)

Module SetupRun.
Import Setup.

(** One call of [subprocess.check_call]: the argument list and the working
    directory ([cwd=]).  The first argument is [self._bazel_cmd], which
    may be [None]. *)
Record Spawn := {
  argv : list PyStr;
  cwd : string
}.

(** What becomes of such a call: the process runs and exits with a return
    code, or [subprocess] raises before any process ran (an executable
    that cannot be launched, an argument that is no string). *)
Inductive Completed :=
  | Exit (returncode : Z)
  | NotLaunched (why : string).

(** What [run] asks of its host, all of it taken as given: the directory
    of the script, [os.path.dirname(os.path.realpath(__file__))];
    [os.path.join]; and the fate of a process, which may depend on the
    processes run before it. *)
Record Shell := {
  script_dir : string;
  path_join : string → string → string;
  launch : list Spawn → Spawn → Completed
}.

Inductive RunExn :=
  | CommandExn (e : Exn)
  | CalledProcessError (returncode : Z) (cmd : list PyStr)
  | SubprocessError (why : string).

(** The state [run] works in: the command object with its lookups so far,
    and the calls of [check_call] made so far, in order. *)
Record World := {
  command : State;
  spawned : list Spawn
}.

Inductive RunOutcome (A : Type) :=
  | Done (a : A)
  | Failed (e : RunExn).
Arguments Done {A} a.
Arguments Failed {A} e.

Definition R (A : Type) : Type := World → RunOutcome A * World.

#[export] Instance R_ret : MRet R := λ A a w, (Done a, w).
#[export] Instance R_bind : MBind R := λ A B f m w,
  match m w with
  | (Done a, w') => f a w'
  | (Failed e, w') => (Failed e, w')
  end.

(** A step on the command object alone. *)
Definition lift {A} (m : M A) : R A :=
  λ w, match m (command w) with
       | (Returned a, s') =>
           (Done a, {| command := s'; spawned := spawned w |})
       | (Raised e, s') =>
           (Failed (CommandExn e), {| command := s'; spawned := spawned w |})
       end.

Definition get_additional_build_options : M (list string) :=
  λ s, match _additional_build_options (self s) with
       | Some v => (Returned v, s)
       | None => (Raised (AttributeError "_additional_build_options"), s)
       end.

(** [subprocess.check_call(args, cwd=dir)]: returns when the process exits
    with code zero and raises [CalledProcessError(returncode, args)]
    otherwise. *)
Definition check_call (sh : Shell) (args : list PyStr) (dir : string)
    : R unit :=
  λ w,
    let call := {| argv := args; cwd := dir |} in
    let w' := {| command := command w; spawned := spawned w ++ [call] |} in
    match launch sh (spawned w) call with
    | Exit code =>
        if Z.eqb code 0 then (Done tt, w')
        else (Failed (CalledProcessError code args), w')
    | NotLaunched why => (Failed (SubprocessError why), w')
    end.

(** [_BazelBuildCommand.run]. *)
Definition run (sh : Shell) : R unit :=
  let mct_dir := path_join sh (script_dir sh) "model_card_toolkit" in
  let proto_dir := path_join sh mct_dir "proto" in
  c ← lift get_bazel_cmd;
  opts ← lift get_additional_build_options;
  check_call sh
    ([c; Some "build"; Some "--verbose_failures"] ++ (Some <$> opts)
       ++ [Some ":model_card_py_pb2"])
    proto_dir;;
  c ← lift get_bazel_cmd;
  opts ← lift get_additional_build_options;
  check_call sh
    ([c; Some "run"] ++ (Some <$> opts) ++ [Some ":move_generated_files"])
    mct_dir.

(** The two command lines, for the statements below: bazel's [build] of
    the protocol buffers, in the [proto] directory of the package, and its
    [run] of the script that moves the generated files, in the package
    directory. *)
Definition mct_dir (sh : Shell) : string :=
  path_join sh (script_dir sh) "model_card_toolkit".

Definition build_call (sh : Shell) (exe : PyStr) (opts : list string)
    : Spawn :=
  {| argv := exe :: Some "build" :: Some "--verbose_failures"
             :: (Some <$> opts) ++ [Some ":model_card_py_pb2"];
     cwd := path_join sh (mct_dir sh) "proto" |}.

Definition move_call (sh : Shell) (exe : PyStr) (opts : list string)
    : Spawn :=
  {| argv := exe :: Some "run"
             :: (Some <$> opts) ++ [Some ":move_generated_files"];
     cwd := mct_dir sh |}.

(** The executable [finalize_options] settles on: [bazel] when that is
    found, what the [bazelisk] lookup gave otherwise. *)
Definition selected_executable (h : Host) : PyStr :=
  if py_truthy (find_executable h "bazel") then find_executable h "bazel"
  else find_executable h "bazelisk".

(** The command object as [finalize_options] leaves it when it returns. *)
Definition finalized (h : Host) : _BazelBuildCommand :=
  {| _bazel_cmd := Some (selected_executable h);
     _additional_build_options := Some (options_on (platform_system h)) |}.

(** Hosts and shells for the examples: a Linux host that has only
    [bazelisk]; a host with neither; a shell where every process succeeds
    and one where bazel's [build] exits with code 2. *)
Definition linux_bazelisk_host : Host :=
  {| find_executable := λ name,
       if String.eqb name "bazelisk" then Some "/usr/bin/bazelisk" else None;
     platform_system := "Linux" |}.

Definition bare_host : Host :=
  {| find_executable := λ _, None; platform_system := "Linux" |}.

(** [posixpath.join] of two components: an absolute second component
    replaces the first; otherwise the two are joined by a separator,
    unless the first is empty or ends in one. *)
Definition starts_with_sep (s : string) : bool :=
  match s with
  | String c _ => Ascii.eqb c (Ascii.ascii_of_nat 47)
  | EmptyString => false
  end.

Fixpoint ends_with_sep (s : string) : bool :=
  match s with
  | EmptyString => false
  | String c EmptyString => Ascii.eqb c (Ascii.ascii_of_nat 47)
  | String _ rest => ends_with_sep rest
  end.

Definition posix_join (a b : string) : string :=
  if starts_with_sep b then b
  else if String.eqb a EmptyString || ends_with_sep a then a ++ b
  else a ++ "/" ++ b.

Definition good_shell : Shell :=
  {| script_dir := "/src/mct"; path_join := posix_join;
     launch := λ _ _, Exit 0 |}.

Definition failing_build_shell : Shell :=
  {| script_dir := "/src/mct"; path_join := posix_join;
     launch := λ before _, match before with
                           | [] => Exit 2
                           | _ => Exit 0
                           end |}.

Definition world_of (s : State) : World := {| command := s; spawned := [] |}.

End SetupRun.

(** *** The model-card core

    Of the toolkit itself only [setup.py] is at hand: the package it
    installs ([model_card_toolkit], with its schemas and templates) is not.
    The definitions below follow the design document's description of that
    package, section by section. *)

Module Core.

(** Modelled from the spec: the error conditions surfaced to the caller
    (section 6), which the package's code, not at hand, would declare. *)
Inductive Error :=
  | SchemaNotFoundError
  | MergeConstraintError
  | UnsupportedMigrationError
  | TemplateNotFoundError
  | TemplateRenderError.

Inductive Result (A : Type) :=
  | Ok (a : A)
  | Err (e : Error).
Arguments Ok {A} a.
Arguments Err {A} e.

#[export] Instance Result_ret : MRet Result := λ A a, Ok a.
#[export] Instance Result_bind : MBind Result := λ A B f r,
  match r with
  | Ok a => f a
  | Err e => Err e
  end.

(** Modelled from the spec: a semantic version [major.minor.patch], as
    the version strings of section 3 denote, and semantic-version
    comparison (section 4.1): by major, then minor, then patch. *)
Definition Version : Type := nat * nat * nat.

Definition version_compare (a b : Version) : comparison :=
  match a, b with
  | (a1, a2, a3), (b1, b2, b3) =>
      match Nat.compare a1 b1 with
      | Eq => match Nat.compare a2 b2 with
              | Eq => Nat.compare a3 b3
              | c => c
              end
      | c => c
      end
  end.

Definition version_ltb (a b : Version) : bool :=
  match version_compare a b with Lt => true | _ => false end.

Definition version_leb (a b : Version) : bool :=
  match version_compare a b with Gt => false | _ => true end.

Definition version_lt (a b : Version) : Prop := version_ltb a b = true.
Definition version_le (a b : Version) : Prop := version_leb a b = true.

End Core.

(** Modelled from the spec: the model-card data model (section 3), whose
    code is not at hand.  A card is a nested record; a partial card has the
    same shape with the fields it does not mention left null or empty.
    Scalars are optional texts, set-like fields are lists of texts in
    insertion order, and the two ordered sequences hold metric and graphic
    entries.  Metric values are JSON numbers, which the core only moves
    around; they are kept as exact rationals. *)
Module DataModel.
Import Core.

Record Metric := {
  metric_name : string;
  metric_value : Q;
  confidence_interval : option (Q * Q);
  slice : option string
}.

Record Graphic := {
  graphic_name : string;
  image : string
}.

Record ModelDetails := {
  name : option string;
  owners : list string;
  version : option string;
  license : option string;
  references : list string;
  citations : list string
}.

Record ModelParameters := {
  architecture : option string;
  input_spec : option string;
  output_spec : option string;
  training_data : list string
}.

Record Considerations := {
  use_cases : list string;
  limitations : list string;
  tradeoffs : list string;
  ethical_considerations : list string
}.

(** Modelled from the spec: the root entity [ModelCard] of section 3 (the
    data model's code is not at hand).  Top-level sections may be null;
    the two ordered sequences and the set-like fields are empty when
    absent. *)
Record ModelCard := {
  schema_version : option Version;
  model_details : option ModelDetails;
  model_parameters : option ModelParameters;
  quantitative_analysis : list Metric;
  considerations : option Considerations;
  graphics : list Graphic
}.

(** A partial update is a card that holds only the fields the caller
    wishes to merge. *)
Definition PartialModelCard : Type := ModelCard.

Definition empty_details : ModelDetails :=
  {| name := None; owners := []; version := None; license := None;
     references := []; citations := [] |}.

Definition empty_parameters : ModelParameters :=
  {| architecture := None; input_spec := None; output_spec := None;
     training_data := [] |}.

Definition empty_considerations : Considerations :=
  {| use_cases := []; limitations := []; tradeoffs := [];
     ethical_considerations := [] |}.

(** The empty card, which is also the empty partial update [{}]. *)
Definition empty_card : ModelCard :=
  {| schema_version := None; model_details := None;
     model_parameters := None; quantitative_analysis := [];
     considerations := None; graphics := [] |}.

(** The de-duplication key of a metric entry: (metric name, slice
    identifier). *)
Definition metric_key (m : Metric) : string * option string :=
  (metric_name m, slice m).

End DataModel.

(** Modelled from the spec: the merger (section 4.3), whose code is not at
    hand.  [merge base update] applies the field-category rules: a scalar
    of the update overwrites the base when it is present (non-null and
    non-empty); an ordered sequence takes the update's entries one by one,
    an entry replacing in place the first base entry with its key and being
    appended when there is none; a set-like text field is the base followed
    by the update's texts that are not in it yet; a nested record is merged
    field by field.  Appending to a sequence that is already at its
    schema-declared maximum fails with [MergeConstraintError]. *)
Module Merger.
Import Core DataModel.

(** Modelled from the spec: the scalar rule of section 4.3 (the merger's
    code is not at hand).  The update overwrites the base when its value
    is present, that is neither null nor empty; otherwise the base is
    retained. *)
Definition present (v : option string) : bool :=
  match v with
  | None => false
  | Some s => negb (String.eqb s EmptyString)
  end.

Definition merge_scalar (base update : option string) : option string :=
  if present update then update else base.

Definition merge_version (base update : option Version) : option Version :=
  match update with
  | Some v => Some v
  | None => base
  end.

(** Modelled from the spec: the rule for set-like text fields of section
    4.3.  The union keeps the base entries first and inserts, in the
    update's order, each text that is not there yet (exact string
    equality). *)
Definition insert_text (acc : list string) (s : string) : list string :=
  if bool_decide (s ∈ acc) then acc else acc ++ [s].

Definition merge_set (base update : list string) : list string :=
  foldl insert_text base update.

(** Whether length [n] is over the schema-declared maximum of a sequence,
    if the schema declares one. *)
Definition exceeds (max : option nat) (n : nat) : bool :=
  match max with
  | None => false
  | Some m => Nat.ltb m n
  end.

(** Ordered sequences, for entries of type [A] with keys of type [K]. *)
Section Sequences.
Context {A K : Type} `{EqDecision K} (key : A → K).

(** Modelled from the spec: the rule for ordered sequences of section
    4.3.  [replace_first] replaces, where it stands, the first entry that
    has the key of [e], and yields [None] when no entry has it;
    [merge_entry] then appends [e], unless the sequence would grow beyond
    the schema-declared maximum; [merge_seq] takes the update's entries in
    order. *)
Fixpoint replace_first (e : A) (l : list A) : option (list A) :=
  match l with
  | [] => None
  | x :: l' =>
      if bool_decide (key x = key e) then Some (e :: l')
      else cons x <$> replace_first e l'
  end.

Definition merge_entry (max : option nat) (acc : list A) (e : A)
    : Result (list A) :=
  match replace_first e acc with
  | Some acc' => Ok acc'
  | None =>
      if exceeds max (S (length acc)) then Err MergeConstraintError
      else Ok (acc ++ [e])
  end.

Fixpoint merge_seq (max : option nat) (base update : list A)
    : Result (list A) :=
  match update with
  | [] => Ok base
  | e :: rest => acc ← merge_entry max base e; merge_seq max acc rest
  end.

End Sequences.

(** Nested records. *)
Definition merge_details (base update : ModelDetails) : ModelDetails :=
  {| name := merge_scalar (name base) (name update);
     owners := merge_set (owners base) (owners update);
     version := merge_scalar (version base) (version update);
     license := merge_scalar (license base) (license update);
     references := merge_set (references base) (references update);
     citations := merge_set (citations base) (citations update) |}.

Definition merge_parameters (base update : ModelParameters)
    : ModelParameters :=
  {| architecture := merge_scalar (architecture base) (architecture update);
     input_spec := merge_scalar (input_spec base) (input_spec update);
     output_spec := merge_scalar (output_spec base) (output_spec update);
     training_data :=
       merge_set (training_data base) (training_data update) |}.

Definition merge_considerations (base update : Considerations)
    : Considerations :=
  {| use_cases := merge_set (use_cases base) (use_cases update);
     limitations := merge_set (limitations base) (limitations update);
     tradeoffs := merge_set (tradeoffs base) (tradeoffs update);
     ethical_considerations :=
       merge_set (ethical_considerations base)
                 (ethical_considerations update) |}.

(** A section the update does not mention is retained; one the base lacks
    is merged into the empty section. *)
Definition merge_section {R : Type} (empty : R) (f : R → R → R)
    (base update : option R) : option R :=
  match update with
  | None => base
  | Some u => Some (f (default empty base) u)
  end.

(** The schema-declared maxima of the two ordered sequences. *)
Record Limits := {
  max_metrics : option nat;
  max_graphics : option nat
}.

Definition no_limits : Limits :=
  {| max_metrics := None; max_graphics := None |}.

(** Modelled from the spec: [merge(base, update)] of section 4.3, each
    field merged by the rule of its category and nested records field by
    field. *)
Definition merge (lim : Limits) (base : ModelCard) (update : PartialModelCard)
    : Result ModelCard :=
  qa ← merge_seq metric_key (max_metrics lim)
         (quantitative_analysis base) (quantitative_analysis update);
  gs ← merge_seq graphic_name (max_graphics lim)
         (graphics base) (graphics update);
  mret {| schema_version :=
            merge_version (schema_version base) (schema_version update);
          model_details :=
            merge_section empty_details merge_details
              (model_details base) (model_details update);
          model_parameters :=
            merge_section empty_parameters merge_parameters
              (model_parameters base) (model_parameters update);
          quantitative_analysis := qa;
          considerations :=
            merge_section empty_considerations merge_considerations
              (considerations base) (considerations update);
          graphics := gs |}.

(** The cards of the scenario of section 8: a card whose only content is
    its list of metrics. *)
Definition metric (n : string) (v : Q) : Metric :=
  {| metric_name := n; metric_value := v; confidence_interval := None;
     slice := None |}.

Definition card_of_metrics (ms : list Metric) : ModelCard :=
  {| schema_version := None; model_details := None;
     model_parameters := None; quantitative_analysis := ms;
     considerations := None; graphics := [] |}.

End Merger.

(** Modelled from the spec: the schema registry (section 4.1), whose code
    is not at hand.  The registry indexes the loaded schemas by version;
    [resolve] answers an exact-version request by lookup and a request for
    the latest by the greatest known version under semantic-version
    comparison, and fails with [SchemaNotFoundError] when there is no such
    schema. *)
Module Registry.
Import Core.

Inductive Request :=
  | Latest
  | Exact (v : Version).

(** The greatest of the known versions under semantic-version
    comparison. *)
Definition later (a b : Version) : Version :=
  if version_ltb a b then b else a.

Definition max_version (vs : list Version) : option Version :=
  foldr (λ v acc, Some (from_option (later v) v acc)) None vs.

Section Resolve.
Variable Schema : Type.

Definition known_versions (reg : gmap Version Schema) : list Version :=
  (map_to_list reg).*1.

Definition lookup_schema (reg : gmap Version Schema) (v : Version)
    : Result Schema :=
  match reg !! v with
  | Some s => Ok s
  | None => Err SchemaNotFoundError
  end.

(** Modelled from the spec: [resolve(version_or_latest)] of section 4.1
    (the registry's code is not at hand). *)
Definition resolve (reg : gmap Version Schema) (req : Request)
    : Result Schema :=
  match req with
  | Exact v => lookup_schema reg v
  | Latest =>
      match max_version (known_versions reg) with
      | Some v => lookup_schema reg v
      | None => Err SchemaNotFoundError
      end
  end.

End Resolve.

(** A registry of three schemas, named here by their titles; its greatest
    version is 0.3.2. *)
Definition example_registry : gmap Version string :=
  {[ (0, 1, 0) := "v0.1.0"; (0, 3, 2) := "v0.3.2"; (0, 2, 11) := "v0.2.11" ]}.

End Registry.

(** Modelled from the spec: the migrator (sections 4.4 and 9), whose code
    is not at hand.  The migration rules form a directed graph: a rule is
    keyed by (from_version, to_version) and carries a transformation,
    which is total, as the design demands.  Several rules may leave one
    version.  [migrate] resolves a request by traversing the graph from
    [from_version] along rules that lead to strictly greater versions, and
    applies the rules of the route it finds, in order; it fails with
    [UnsupportedMigrationError] when no route leads to [to_version]. *)
Module Migrator.
Import Core.

Section Migrate.
Variable Doc : Type.

Record Rule := {
  rule_from : Version;
  rule_to : Version;
  transform : Doc → Doc
}.

(** A rule may be followed from [cur] towards [tgt] when it leaves [cur],
    leads to a strictly greater version and does not pass the target. *)
Definition follows (cur tgt : Version) (r : Rule) : bool :=
  bool_decide (rule_from r = cur)
  && version_ltb cur (rule_to r)
  && version_leb (rule_to r) tgt.

(** The first rule of the table, in table order, for which [step] finds a
    way on. *)
Fixpoint first_route (step : Rule → option Doc) (rs : list Rule)
    : option Doc :=
  match rs with
  | [] => None
  | r :: rs' =>
      match step r with
      | Some d' => Some d'
      | None => first_route step rs'
      end
  end.

(** Modelled from the spec: the traversal of the version graph (section
    4.4), depth first in table order, with the number of rules it may
    still follow.  A rule that leads nowhere is given up for the next
    one. *)
Fixpoint walk (rules : list Rule) (fuel : nat) (cur tgt : Version) (d : Doc)
    : option Doc :=
  if decide (cur = tgt) then Some d
  else
    match fuel with
    | 0 => None
    | S fuel' =>
        first_route
          (λ r, if follows cur tgt r
                then walk rules fuel' (rule_to r) tgt (transform r d)
                else None)
          rules
    end.

(** Modelled from the spec: [migrate(document, from_version,
    to_version)] of section 4.4.  A route along strictly increasing
    versions follows each rule at most once, so the length of the table is
    fuel enough. *)
Definition migrate (rules : list Rule) (d : Doc)
    (from_version to_version : Version) : Result Doc :=
  match walk rules (length rules) from_version to_version d with
  | Some d' => Ok d'
  | None => Err UnsupportedMigrationError
  end.

(** [chain rules k a c]: [k] rules of the table lead from version [a] to
    version [c], each to a strictly greater version. *)
Inductive chain (rules : list Rule) : nat → Version → Version → Prop :=
  | chain_here (v : Version) : chain rules 0 v v
  | chain_step (k : nat) (a c : Version) (r : Rule) :
      r ∈ rules → rule_from r = a →
      version_lt a (rule_to r) →
      chain rules k (rule_to r) c →
      chain rules (S k) a c.

Definition path_exists (rules : list Rule) (a c : Version) : Prop :=
  ∃ k, chain rules k a c.

(** [migrates rules a c d d']: some chain of rules from [a] to [c] turns
    the document [d] into [d']. *)
Inductive migrates (rules : list Rule)
    : Version → Version → Doc → Doc → Prop :=
  | migrates_here (v : Version) (d : Doc) : migrates rules v v d d
  | migrates_step (a c : Version) (r : Rule) (d d' : Doc) :
      r ∈ rules → rule_from r = a →
      version_lt a (rule_to r) →
      migrates rules (rule_to r) c (transform r d) d' →
      migrates rules a c d d'.

(** The chains from [a] to [c] agree on [d]: whichever is taken, the
    document that results is the same. *)
Definition routes_agree (rules : list Rule) (a c : Version) (d : Doc)
    : Prop :=
  ∀ d1 d2, migrates rules a c d d1 → migrates rules a c d d2 → d1 = d2.

(** At most one rule leaves each version. *)
Definition single_successor (rules : list Rule) : Prop :=
  ∀ r1 r2, r1 ∈ rules → r2 ∈ rules → rule_from r1 = rule_from r2 → r1 = r2.

End Migrate.

(** Rule tables over model cards.  [stamp] sets the schema version;
    [default_license] is a rule that defaults a field. *)
Definition stamp (v : Version) (d : DataModel.ModelCard)
    : DataModel.ModelCard :=
  {| DataModel.schema_version := Some v;
     DataModel.model_details := DataModel.model_details d;
     DataModel.model_parameters := DataModel.model_parameters d;
     DataModel.quantitative_analysis := DataModel.quantitative_analysis d;
     DataModel.considerations := DataModel.considerations d;
     DataModel.graphics := DataModel.graphics d |}.

Definition default_license (d : DataModel.ModelCard) : DataModel.ModelCard :=
  {| DataModel.schema_version := DataModel.schema_version d;
     DataModel.model_details :=
       Some {| DataModel.name := None; DataModel.owners := [];
               DataModel.version := None;
               DataModel.license := Some "unknown";
               DataModel.references := []; DataModel.citations := [] |};
     DataModel.model_parameters := DataModel.model_parameters d;
     DataModel.quantitative_analysis := DataModel.quantitative_analysis d;
     DataModel.considerations := DataModel.considerations d;
     DataModel.graphics := DataModel.graphics d |}.

(** A chain 0.1.0 to 0.2.0 to 0.3.0, and a stray rule that leads
    downwards, which no walk follows. *)
Definition example_rules : list (Rule DataModel.ModelCard) :=
  [ {| rule_from := (0, 1, 0); rule_to := (0, 2, 0);
       transform := λ d, stamp (0, 2, 0) (default_license d) |};
    {| rule_from := (0, 2, 0); rule_to := (0, 3, 0);
       transform := stamp (0, 3, 0) |};
    {| rule_from := (0, 4, 0); rule_to := (0, 3, 0);
       transform := stamp (0, 3, 0) |} ].

(** The same chain with a direct rule from 0.1.0 to 0.3.0 beside it, which
    stamps the card and defaults nothing. *)
Definition direct_rules : list (Rule DataModel.ModelCard) :=
  [ {| rule_from := (0, 1, 0); rule_to := (0, 3, 0);
       transform := stamp (0, 3, 0) |};
    {| rule_from := (0, 1, 0); rule_to := (0, 2, 0);
       transform := λ d, stamp (0, 2, 0) (default_license d) |};
    {| rule_from := (0, 2, 0); rule_to := (0, 3, 0);
       transform := stamp (0, 3, 0) |} ].

End Migrator.

(** ** Part II: theorems *)

(** *** setup.py *)

Section SetupFacts.
Import Setup.

(** The three ways through [finalize_options]: [bazel] is found; only
    [bazelisk] is; neither is. *)
Lemma finalize_options_run (h : Host) (s : State) :
  finalize_options h s =
    let b := find_executable h "bazel" in
    let k := find_executable h "bazelisk" in
    if py_truthy b then
      (Returned tt,
       finished s h b [CallFindExecutable "bazel"; CallPlatformSystem])
    else if py_truthy k then
      (Returned tt,
       finished s h k [CallFindExecutable "bazel";
                       CallFindExecutable "bazelisk"; CallPlatformSystem])
    else
      (Raised (RuntimeError bazel_missing_msg),
       with_cmd s k [CallFindExecutable "bazel";
                     CallFindExecutable "bazelisk"]).
Proof.
  unfold finalize_options, finished, with_cmd, options_on.
  unfold mbind, M_bind, spawn_find_executable, platform_system_call,
    set_bazel_cmd, get_bazel_cmd, set_additional_build_options, log, raise,
    mret, M_ret, py_not; simpl.
  destruct (py_truthy (find_executable h "bazel")) eqn:Hb; simpl.
  - rewrite Hb; simpl. rewrite <- app_assoc; simpl.
    by destruct (String.eqb (platform_system h) "Darwin").
  - destruct (py_truthy (find_executable h "bazelisk")) eqn:Hk; simpl;
      rewrite ?Hk; simpl; rewrite <- !app_assoc; simpl; [|done].
    by destruct (String.eqb (platform_system h) "Darwin").
Qed.

(** C8.  [finalize_options] raises [RuntimeError] exactly when neither
    [bazel] nor [bazelisk] is found.  When [bazel] is found the command
    keeps the [bazel] path and never looks [bazelisk] up (so [bazel] wins
    when both exist); when it is not, the [bazelisk] lookup comes right
    after the [bazel] one. *)
Theorem finalize_options_bazel_then_bazelisk (h : Host) (s : State) :
  (raises_RuntimeError (finalize_options h s).1
     ↔ ¬ found h "bazel" ∧ ¬ found h "bazelisk")
  ∧ (found h "bazel" →
       (finalize_options h s).1 = Returned tt
       ∧ _bazel_cmd (self (finalize_options h s).2)
           = Some (find_executable h "bazel")
       ∧ calls (finalize_options h s).2
           = calls s ++ [CallFindExecutable "bazel"; CallPlatformSystem])
  ∧ (¬ found h "bazel" →
       _bazel_cmd (self (finalize_options h s).2)
         = Some (find_executable h "bazelisk")
       ∧ ∃ rest, calls (finalize_options h s).2
           = calls s ++ CallFindExecutable "bazel"
                     :: CallFindExecutable "bazelisk" :: rest).
Proof.
  rewrite finalize_options_run. unfold found, raises_RuntimeError.
  destruct (py_truthy (find_executable h "bazel")) eqn:Hb;
    [|destruct (py_truthy (find_executable h "bazelisk")) eqn:Hk];
    cbn zeta; rewrite ?Hb, ?Hk; simpl.
  - split; [|split].
    + split; [intros [msg Hm]; discriminate | intros [Hn _]; by destruct Hn].
    + done.
    + intros Hn; by destruct Hn.
  - split; [|split].
    + split; [intros [msg Hm]; discriminate | intros [_ Hn]; by destruct Hn].
    + discriminate.
    + intros _. split; [done | by eexists].
  - split; [|split].
    + split; [intros _; split; discriminate | intros _; by eexists].
    + discriminate.
    + intros _. split; [done | by exists []].
Qed.

(** C9.  Once [finalize_options] has returned, the additional build
    options are [['--macos_minimum_os=10.9']] exactly when
    [platform.system()] is ['Darwin'], and the empty list on every other
    platform. *)
Theorem finalize_options_additional_build_options (h : Host) (s : State) :
  (finalize_options h s).1 = Returned tt →
  let opts := _additional_build_options (self (finalize_options h s).2) in
  (opts = Some ["--macos_minimum_os=10.9"] ↔ platform_system h = "Darwin")
  ∧ (platform_system h ≠ "Darwin" → opts = Some []).
Proof.
  rewrite finalize_options_run; cbn zeta.
  assert (Hopts :
    (Some (options_on (platform_system h)) = Some ["--macos_minimum_os=10.9"]
       ↔ platform_system h = "Darwin")
    ∧ (platform_system h ≠ "Darwin"
       → Some (options_on (platform_system h)) = Some [])).
  { unfold options_on.
    destruct (String.eqb_spec (platform_system h) "Darwin") as [He|Hne].
    - split; [done | intros Hn; by destruct Hn].
    - split; [split; [discriminate | intros He; by destruct Hne] | done]. }
  destruct (py_truthy (find_executable h "bazel"));
    [|destruct (py_truthy (find_executable h "bazelisk"))]; simpl;
    intros Hret; try done; discriminate.
Qed.

(** On a macOS host with [bazel] installed, a fresh command ends with
    the macOS option. *)
Lemma finalize_options_additional_build_options_darwin :
  (finalize_options darwin_host fresh).1 = Returned tt
  ∧ (_additional_build_options (self (finalize_options darwin_host fresh).2)
       = Some ["--macos_minimum_os=10.9"]
     ↔ platform_system darwin_host = "Darwin")
  ∧ (platform_system darwin_host ≠ "Darwin"
     → _additional_build_options (self (finalize_options darwin_host fresh).2)
       = Some []).
Proof.
  split; [reflexivity|].
  apply (finalize_options_additional_build_options darwin_host fresh).
  reflexivity.
Defined.

(** C10.  [_BuildCommand.sub_commands] starts with [bazel_build], whose
    predicate always holds, and continues with the sub-commands of
    [build.build] unchanged and in their order; so every run of [build]
    runs [bazel_build] first and then the standard sub-commands it would
    have run anyway, in the same order. *)
Theorem sub_commands_bazel_build_first
    (Cmd : Type) (build_sub_commands : list (string * option (Cmd → bool))) :
  (∃ p, head (sub_commands Cmd build_sub_commands)
          = Some ("bazel_build", Some p)
        ∧ ∀ self, p self = true)
  ∧ tail (sub_commands Cmd build_sub_commands) = build_sub_commands
  ∧ ∀ self : Cmd,
      get_sub_commands Cmd (sub_commands Cmd build_sub_commands) self
        = "bazel_build" :: get_sub_commands Cmd build_sub_commands self.
Proof.
  split; [|split].
  - exists (_build_cc_extensions Cmd). split; [reflexivity|].
    intros self. reflexivity.
  - reflexivity.
  - intros self. unfold sub_commands.
    change (get_sub_commands Cmd
              (("bazel_build", Some (_build_cc_extensions Cmd))
                 :: build_sub_commands) self
            = "bazel_build" :: get_sub_commands Cmd build_sub_commands self).
    cbn [get_sub_commands]. reflexivity.
Qed.

End SetupFacts.

(** *** The merger *)

Section MergerFacts.
Import Core DataModel Merger.

Lemma merge_scalar_absent (base : option string) :
  merge_scalar base None = base.
Proof. reflexivity. Qed.

Lemma merge_set_nil (base : list string) : merge_set base [] = base.
Proof. reflexivity. Qed.

Lemma merge_section_absent {R : Type} (empty : R) (f : R → R → R)
    (base : option R) :
  merge_section empty f base None = base.
Proof. reflexivity. Qed.

Section SequenceFacts.
Context {A K : Type} `{EqDecision K} (key : A → K).

Lemma merge_seq_nil (max : option nat) (base : list A) :
  merge_seq key max base [] = Ok base.
Proof. reflexivity. Qed.

(** Replacing keeps every key where it was. *)
Lemma replace_first_keys (e : A) (l l' : list A) :
  replace_first key e l = Some l' → key <$> l' = key <$> l.
Proof.
  revert l'. induction l as [|x l IH]; intros l' Hr; simpl in Hr.
  - discriminate.
  - case_bool_decide as Hk.
    + injection Hr as <-. rewrite !fmap_cons. by rewrite Hk.
    + destruct (replace_first key e l) as [l1|] eqn:Hl; simpl in Hr;
        [|discriminate].
      injection Hr as <-. rewrite !fmap_cons. f_equal. by apply IH.
Qed.

Lemma replace_first_None (e : A) (l : list A) :
  replace_first key e l = None ↔ key e ∉ (key <$> l).
Proof.
  induction l as [|x l IH]; simpl.
  - split; [intros _; apply not_elem_of_nil | done].
  - case_bool_decide as Hk.
    + split; [discriminate|]. intros Hn. destruct Hn. rewrite Hk. left.
    + rewrite not_elem_of_cons.
      destruct (replace_first key e l) as [l1|]; simpl.
      * split; [discriminate|]. intros [_ Hn]. by apply IH in Hn.
      * split; [|done]. intros _. split; [congruence | by apply IH].
Qed.

(** The entry replaced is the first one with the key, and it is replaced
    where it stands. *)
Lemma replace_first_at (e x : A) (l : list A) (i : nat) :
  l !! i = Some x → key x = key e →
  (∀ j y, j < i → l !! j = Some y → key y ≠ key e) →
  replace_first key e l = Some (<[i:=e]> l).
Proof.
  revert i. induction l as [|z l IH]; intros i Hi Hk Hfirst; [done|].
  destruct i as [|i]; simpl in *.
  - injection Hi as ->. by rewrite bool_decide_eq_true_2.
  - assert (Hz : key z ≠ key e) by (apply (Hfirst 0 z); [lia | done]).
    rewrite bool_decide_eq_false_2 by done.
    assert (Hrest : ∀ j y, j < i → l !! j = Some y → key y ≠ key e).
    { intros j y Hj Hy. apply (Hfirst (S j) y); [lia | done]. }
    by rewrite (IH i Hi Hk Hrest).
Qed.

Lemma merge_entry_keys (max : option nat) (acc r : list A) (e : A) :
  merge_entry key max acc e = Ok r →
  (key e ∈ (key <$> acc) ∧ key <$> r = key <$> acc)
  ∨ ((key e ∉ (key <$> acc)) ∧ r = acc ++ [e]).
Proof.
  unfold merge_entry. destruct (replace_first key e acc) as [l1|] eqn:Hr.
  - intros [= <-]. left. split; [|by eapply replace_first_keys].
    destruct (decide (key e ∈ (key <$> acc))) as [|Hn]; [done|].
    apply replace_first_None in Hn. congruence.
  - destruct (exceeds max (S (length acc))); [discriminate|].
    intros [= <-]. right. split; [by apply replace_first_None | done].
Qed.

(** What a whole merge does to the keys: those of the base stay where
    they are, none is duplicated, and every key of the update is there. *)
Lemma merge_seq_keys (max : option nat) (base update r : list A) :
  merge_seq key max base update = Ok r →
  (key <$> base) `prefix_of` (key <$> r)
  ∧ (NoDup (key <$> base) → NoDup (key <$> r))
  ∧ (∀ u, u ∈ update → key u ∈ (key <$> r)).
Proof.
  revert base. induction update as [|e us IH]; intros base Hm; simpl in Hm.
  - injection Hm as <-. split; [done|]. split; [done|].
    intros u Hu. by apply elem_of_nil in Hu.
  - destruct (merge_entry key max base e) as [acc|] eqn:He; simpl in Hm;
      [|discriminate].
    destruct (IH acc Hm) as (Hpre & Hnd & Hin).
    apply merge_entry_keys in He.
    assert (Hbase : (key <$> base) `prefix_of` (key <$> acc)).
    { destruct He as [[_ ->]|[_ ->]]; [done|].
      rewrite fmap_app. by apply prefix_app_r. }
    assert (He' : key e ∈ (key <$> acc)).
    { destruct He as [[Hin' ->]|[_ ->]]; [done|].
      rewrite fmap_app. apply elem_of_app. right. simpl. left. }
    split; [by etrans|]. split.
    + intros Hb. apply Hnd. destruct He as [[_ ->]|[Hn ->]]; [done|].
      rewrite fmap_app. apply NoDup_app. split; [done|]. split.
      * intros k Hk Hk'. apply list_elem_of_singleton in Hk'. by subst.
      * apply NoDup_singleton.
    + intros u Hu. apply elem_of_cons in Hu as [-> |Hu]; [|by apply Hin].
      destruct Hpre as [k ->]. apply elem_of_app. by left.
Qed.

End SequenceFacts.

Example merge_scalar_overwrites :
  merge_scalar (Some "old") (Some "new") = Some "new"
  ∧ merge_scalar (Some "old") (Some EmptyString) = Some "old".
Proof. split; reflexivity. Qed.

Example merge_set_union :
  merge_set ["bias"; "small sample"] ["small sample"; "drift"; "bias"]
    = ["bias"; "small sample"; "drift"].
Proof. reflexivity. Qed.

Example merge_seq_over_maximum :
  merge_seq metric_key (Some 1) [metric "accuracy" (9 # 10)]
      [metric "accuracy" (95 # 100); metric "f1" (8 # 10)]
    = Err MergeConstraintError.
Proof. reflexivity. Qed.

(** C1.  Merging the empty partial update into a card gives the card
    back, whatever the card and whatever maxima the schema declares. *)
Theorem merge_empty_update (lim : Limits) (D : ModelCard) :
  merge lim D empty_card = Ok D.
Proof.
  unfold merge.
  change (quantitative_analysis empty_card) with (@nil Metric).
  change (graphics empty_card) with (@nil Graphic).
  rewrite !merge_seq_nil.
  change (schema_version empty_card) with (@None Version).
  change (model_details empty_card) with (@None ModelDetails).
  change (model_parameters empty_card) with (@None ModelParameters).
  change (considerations empty_card) with (@None Considerations).
  rewrite !merge_section_absent.
  destruct D as [v md mp qa cs gs]. reflexivity.
Qed.

(** C2.  The scenario: the base metrics [accuracy = 0.9] merged with the
    update [accuracy = 0.95; f1 = 0.8] give [accuracy = 0.95; f1 = 0.8].
    In general, an update entry whose key (metric name, slice) is that of
    a base entry takes the place of the first such entry; an entry with a
    new key goes to the end; and a whole merge leaves the keys of the base
    in their positions, duplicates none and holds every key of the
    update. *)
Theorem merge_quantitative_analysis_replace_or_append :
  merge no_limits
      (card_of_metrics [metric "accuracy" (9 # 10)])
      (card_of_metrics [metric "accuracy" (95 # 100); metric "f1" (8 # 10)])
    = Ok (card_of_metrics
            [metric "accuracy" (95 # 100); metric "f1" (8 # 10)])
  ∧ (∀ max (base : list Metric) e i x,
       base !! i = Some x → metric_key x = metric_key e →
       (∀ j y, j < i → base !! j = Some y → metric_key y ≠ metric_key e) →
       merge_entry metric_key max base e = Ok (<[i:=e]> base))
  ∧ (∀ max (base : list Metric) e,
       metric_key e ∉ (metric_key <$> base) →
       exceeds max (S (length base)) = false →
       merge_entry metric_key max base e = Ok (base ++ [e]))
  ∧ (∀ max (base update r : list Metric),
       merge_seq metric_key max base update = Ok r →
       (metric_key <$> base) `prefix_of` (metric_key <$> r)
       ∧ (NoDup (metric_key <$> base) → NoDup (metric_key <$> r))
       ∧ (∀ u, u ∈ update → metric_key u ∈ (metric_key <$> r))).
Proof.
  split; [|split; [|split]].
  - reflexivity.
  - intros max base e i x Hi Hk Hfirst. unfold merge_entry.
    by rewrite (replace_first_at metric_key e x base i).
  - intros max base e Hn Hmax. unfold merge_entry.
    apply (replace_first_None metric_key) in Hn. by rewrite Hn, Hmax.
  - intros max base update r. apply merge_seq_keys.
Qed.

End MergerFacts.

(** *** Versions *)

Section VersionFacts.
Import Core.

Lemma version_compare_spec (a b : Version) :
  match version_compare a b with
  | Eq => a = b
  | Lt => version_compare b a = Gt
  | Gt => version_compare b a = Lt
  end.
Proof.
  destruct a as [[a1 a2] a3], b as [[b1 b2] b3]; simpl.
  destruct (Nat.compare_spec a1 b1) as [->|H1|H1].
  - destruct (Nat.compare_spec a2 b2) as [->|H2|H2].
    + destruct (Nat.compare_spec a3 b3) as [->|H3|H3]; [done| |].
      * rewrite !Nat.compare_refl. by apply Nat.compare_gt_iff.
      * rewrite !Nat.compare_refl. by apply Nat.compare_lt_iff.
    + rewrite Nat.compare_refl.
      by rewrite (proj2 (Nat.compare_gt_iff b2 a2)).
    + rewrite Nat.compare_refl.
      by rewrite (proj2 (Nat.compare_lt_iff b2 a2)).
  - by rewrite (proj2 (Nat.compare_gt_iff b1 a1)).
  - by rewrite (proj2 (Nat.compare_lt_iff b1 a1)).
Qed.

Lemma version_compare_refl (a : Version) : version_compare a a = Eq.
Proof.
  destruct a as [[a1 a2] a3]; simpl. by rewrite !Nat.compare_refl.
Qed.

Lemma version_lt_trans (a b c : Version) :
  version_lt a b → version_lt b c → version_lt a c.
Proof.
  unfold version_lt, version_ltb.
  destruct a as [[a1 a2] a3], b as [[b1 b2] b3], c as [[c1 c2] c3]; simpl.
  destruct (Nat.compare_spec a1 b1), (Nat.compare_spec b1 c1);
    destruct (Nat.compare_spec a1 c1); try done; try lia;
    destruct (Nat.compare_spec a2 b2), (Nat.compare_spec b2 c2);
    destruct (Nat.compare_spec a2 c2); try done; try lia;
    destruct (Nat.compare_spec a3 b3), (Nat.compare_spec b3 c3);
    destruct (Nat.compare_spec a3 c3); try done; lia.
Qed.

Lemma version_lt_irrefl (a : Version) : ¬ version_lt a a.
Proof. unfold version_lt, version_ltb. by rewrite version_compare_refl. Qed.

Lemma version_le_refl (a : Version) : version_le a a.
Proof. unfold version_le, version_leb. by rewrite version_compare_refl. Qed.

Lemma version_le_lt_or_eq (a b : Version) :
  version_le a b ↔ version_lt a b ∨ a = b.
Proof.
  unfold version_le, version_lt, version_leb, version_ltb.
  pose proof (version_compare_spec a b) as Hs.
  destruct (version_compare a b) eqn:Hc.
  - split; [by right | done].
  - split; [by left | done].
  - split; [done|]. intros [Hlt|Heq]; [done|]. subst b.
    by rewrite version_compare_refl in Hc.
Qed.

Lemma version_lt_le (a b : Version) : version_lt a b → version_le a b.
Proof. intros H. apply version_le_lt_or_eq. by left. Qed.

Lemma version_le_trans (a b c : Version) :
  version_le a b → version_le b c → version_le a c.
Proof.
  rewrite !version_le_lt_or_eq. intros [Hab| ->] [Hbc| ->]; auto.
  left. by eapply version_lt_trans.
Qed.

Lemma version_lt_le_trans (a b c : Version) :
  version_lt a b → version_le b c → version_lt a c.
Proof.
  rewrite version_le_lt_or_eq. intros Hab [Hbc| ->]; [|done].
  by eapply version_lt_trans.
Qed.

(** Of two versions, one is below the other. *)
Lemma version_le_total (a b : Version) :
  version_ltb a b = false → version_le b a.
Proof.
  unfold version_ltb, version_le, version_leb.
  pose proof (version_compare_spec a b) as Hs.
  destruct (version_compare a b); [|done|].
  - subst. by rewrite version_compare_refl.
  - by rewrite Hs.
Qed.

Lemma version_lt_not_le (a b : Version) :
  version_lt a b → ¬ version_le b a.
Proof.
  intros Hab Hba. apply (version_lt_irrefl a).
  by eapply version_lt_le_trans.
Qed.

End VersionFacts.

(** *** The schema registry *)

Section RegistryFacts.
Import Core Registry.

Lemma later_upper (a b : Version) :
  version_le a (later a b) ∧ version_le b (later a b)
  ∧ (later a b = a ∨ later a b = b).
Proof.
  unfold later. destruct (version_ltb a b) eqn:Hab.
  - split; [by apply version_lt_le|]. split; [apply version_le_refl | by right].
  - split; [apply version_le_refl|].
    split; [by apply version_le_total | by left].
Qed.

(** [max_version] picks an element that no other exceeds. *)
Lemma max_version_spec (vs : list Version) :
  match max_version vs with
  | Some m => m ∈ vs ∧ ∀ v, v ∈ vs → version_le v m
  | None => vs = []
  end.
Proof.
  induction vs as [|v vs IH]; [done|]. simpl.
  destruct (max_version vs) as [m|]; simpl.
  - destruct IH as [Hm Hub].
    destruct (later_upper v m) as (Hv & Hm' & Hsel). split.
    + destruct Hsel as [->| ->]; [left | by right].
    + intros w Hw. apply elem_of_cons in Hw as [-> |Hw]; [done|].
      eapply version_le_trans; [by apply Hub | done].
  - subst vs. split; [left|].
    intros w Hw. apply list_elem_of_singleton in Hw as ->.
    apply version_le_refl.
Qed.

Section WithSchema.
Variable Schema : Type.

Lemma elem_of_known_versions (reg : gmap Version Schema) (v : Version) :
  v ∈ known_versions Schema reg ↔ is_Some (reg !! v).
Proof.
  unfold known_versions. rewrite list_elem_of_fmap. split.
  - intros [[v' s] [-> Hin]]. apply elem_of_map_to_list in Hin. by exists s.
  - intros [s Hs]. exists (v, s). split; [done|].
    by apply elem_of_map_to_list.
Qed.

End WithSchema.

Example resolve_example_registry :
  resolve string example_registry Latest = Ok "v0.3.2"
  ∧ resolve string example_registry (Exact (0, 2, 11)) = Ok "v0.2.11"
  ∧ resolve string example_registry (Exact (9, 9, 9))
      = Err SchemaNotFoundError
  ∧ resolve string ∅ Latest = Err SchemaNotFoundError.
Proof. repeat split; vm_compute; reflexivity. Qed.

(** C3.  A request for a version the registry does not know fails with
    [SchemaNotFoundError]; a request for the latest, in a registry that
    knows some version, returns the schema registered under the greatest
    known version in semantic-version order.  In particular version 9.9.9
    is not found in a registry whose greatest version is 0.3.2. *)
Theorem resolve_unknown_and_latest (Schema : Type) :
  (∀ (reg : gmap Version Schema) v,
     reg !! v = None →
     resolve Schema reg (Exact v) = Err SchemaNotFoundError)
  ∧ (∀ reg : gmap Version Schema,
       reg ≠ ∅ →
       ∃ v s, resolve Schema reg Latest = Ok s
              ∧ reg !! v = Some s
              ∧ ∀ v', is_Some (reg !! v') → version_le v' v)
  ∧ (∀ reg : gmap Version Schema,
       (∀ v, is_Some (reg !! v) → version_le v (0, 3, 2)) →
       resolve Schema reg (Exact (9, 9, 9)) = Err SchemaNotFoundError).
Proof.
  assert (Hunknown : ∀ (reg : gmap Version Schema) v,
    reg !! v = None → resolve Schema reg (Exact v) = Err SchemaNotFoundError).
  { intros reg v Hv. unfold resolve, lookup_schema. by rewrite Hv. }
  split; [done|]. split.
  - intros reg Hne. unfold resolve.
    pose proof (max_version_spec (known_versions Schema reg)) as Hmax.
    destruct (max_version (known_versions Schema reg)) as [m|].
    + destruct Hmax as [Hm Hub].
      apply elem_of_known_versions in Hm as [s Hs].
      exists m, s. unfold lookup_schema. rewrite Hs.
      split; [done|]. split; [done|].
      intros v' Hv'. apply Hub. by apply elem_of_known_versions.
    + destruct Hne. apply map_to_list_empty_iff.
      unfold known_versions in Hmax. by apply fmap_nil_inv in Hmax.
  - intros reg Hub. apply Hunknown.
    destruct (reg !! (9, 9, 9)) as [s|] eqn:Hs; [|done].
    specialize (Hub (9, 9, 9) (ltac:(by exists s))). done.
Qed.

End RegistryFacts.

(** *** The migrator *)

Section MigratorFacts.
Import Core Migrator.
Variable Doc : Type.
Variable rules : list (Rule Doc).

Abbreviation walk := (walk Doc rules).
Abbreviation chain := (chain Doc rules).
Abbreviation migrates := (migrates Doc rules).

Lemma chain_le (k : nat) (a c : Version) :
  chain k a c → version_le a c ∧ ((0 < k)%nat → version_lt a c).
Proof.
  induction 1 as [v|k a c r Hin Hfrom Hlt Hch [IHle _]].
  - split; [apply version_le_refl | lia].
  - assert (version_lt a c) by by eapply version_lt_le_trans.
    split; [by apply version_lt_le | done].
Qed.

(** The versions a chain leaves are distinct sources of the table, so a
    chain is no longer than the table. *)
Lemma chain_sources (k : nat) (a c : Version) :
  chain k a c →
  ∃ l : list Version,
    length l = k ∧ NoDup l
    ∧ ∀ v, v ∈ l → v ∈ (rule_from Doc <$> rules) ∧ version_le a v.
Proof.
  induction 1 as [v|k a c r Hin Hfrom Hlt Hch (l & Hlen & Hnd & Hl)].
  - exists []. split; [done|]. split; [constructor|].
    intros w Hw. by apply elem_of_nil in Hw.
  - exists (a :: l). split; [by rewrite <- Hlen|]. split.
    + constructor; [|done]. intros Ha. apply Hl in Ha as [_ Hle].
      by apply (version_lt_not_le a (rule_to Doc r)).
    + intros w Hw. apply elem_of_cons in Hw as [-> |Hw].
      * split; [|apply version_le_refl].
        rewrite <- Hfrom. by apply list_elem_of_fmap_2.
      * apply Hl in Hw as [Hs Hle]. split; [done|].
        eapply version_le_trans; [by apply version_lt_le | done].
Qed.

Lemma chain_bound (k : nat) (a c : Version) :
  chain k a c → (k ≤ length rules)%nat.
Proof.
  intros (l & <- & Hnd & Hl)%chain_sources.
  rewrite <- (length_fmap (rule_from Doc)).
  apply submseteq_length, NoDup_submseteq; [done|].
  intros v Hv. by apply Hl.
Qed.

Lemma chain_trans (k1 k2 : nat) (a b c : Version) :
  chain k1 a b → chain k2 b c → chain (k1 + k2) a c.
Proof.
  induction 1 as [v|k a b r Hin Hfrom Hlt Hch IH]; intros Hbc; [done|].
  simpl. econstructor; [done | done | done | by apply IH].
Qed.

Lemma migrates_chain (a c : Version) (d d' : Doc) :
  migrates a c d d' → ∃ k, chain k a c.
Proof.
  induction 1 as [v d|a c r d d' Hin Hfrom Hlt Hm [k Hk]].
  - exists 0. constructor.
  - exists (S k). by econstructor.
Qed.

Lemma migrates_trans (a b c : Version) (d d1 d2 : Doc) :
  migrates a b d d1 → migrates b c d1 d2 → migrates a c d d2.
Proof.
  induction 1 as [v d|a b r d d1 Hin Hfrom Hlt Hm IH]; intros Hbc; [done|].
  econstructor; [done | done | done | by apply IH].
Qed.

Lemma first_route_Some (step : Rule Doc → option Doc) (rs : list (Rule Doc))
    (d' : Doc) :
  first_route Doc step rs = Some d' → ∃ r, r ∈ rs ∧ step r = Some d'.
Proof.
  induction rs as [|r rs IH]; simpl; [done|].
  destruct (step r) as [d1|] eqn:Hr.
  - intros [= <-]. exists r. split; [left | done].
  - intros (r' & Hin & Hr')%IH. exists r'. split; [by right | done].
Qed.

Lemma first_route_is_Some (step : Rule Doc → option Doc)
    (rs : list (Rule Doc)) (r : Rule Doc) :
  r ∈ rs → is_Some (step r) → is_Some (first_route Doc step rs).
Proof.
  induction rs as [|r' rs IH]; intros Hin Hr; [by apply elem_of_nil in Hin|].
  simpl. destruct (step r') as [d1|] eqn:Hr'; [by exists d1|].
  apply elem_of_cons in Hin as [-> |Hin]; [|by apply IH].
  rewrite Hr' in Hr. by destruct Hr.
Qed.

(** A walk that succeeds has followed a chain of the table. *)
Lemma walk_sound (n : nat) (a c : Version) (d d' : Doc) :
  walk n a c d = Some d' → migrates a c d d'.
Proof.
  revert a d. induction n as [|n IH]; intros a d; simpl.
  - case_decide as Hac; [|done]. intros [= <-]. subst. constructor.
  - case_decide as Hac; [intros [= <-]; subst; constructor|].
    intros (r & Hin & Hr)%first_route_Some.
    destruct (follows Doc a c r) eqn:Hf; [|done].
    unfold follows in Hf.
    apply andb_true_iff in Hf as [Hf _].
    apply andb_true_iff in Hf as [Hfrom Hlt].
    apply bool_decide_eq_true in Hfrom.
    econstructor; [done | done | done | by apply IH].
Qed.

(** With fuel for its length, a chain of the table makes the walk
    succeed. *)
Lemma walk_complete (k : nat) (a c : Version) :
  chain k a c → ∀ n d, (k ≤ n)%nat → is_Some (walk n a c d).
Proof.
  induction 1 as [v|k a c r Hin Hfrom Hlt Hch IH]; intros n d Hn.
  - exists d. destruct n; simpl; by rewrite decide_True.
  - destruct n as [|n]; [lia|].
    assert (Hrc : version_le (rule_to Doc r) c) by by eapply chain_le.
    assert (Hne : a ≠ c).
    { intros ->. apply (version_lt_irrefl c).
      by eapply version_lt_le_trans. }
    simpl. rewrite decide_False by done.
    apply (first_route_is_Some _ _ r Hin).
    unfold follows. rewrite bool_decide_eq_true_2 by done.
    unfold version_lt in Hlt. unfold version_le in Hrc.
    rewrite Hlt, Hrc. simpl. apply IH. lia.
Qed.

Lemma migrate_chain (k : nat) (a c : Version) (d : Doc) :
  chain k a c → ∃ d', migrate Doc rules d a c = Ok d' ∧ migrates a c d d'.
Proof.
  intros Hch. unfold migrate.
  destruct (walk_complete k a c Hch (length rules) d) as [d' Hd'];
    [by eapply chain_bound|].
  fold walk. rewrite Hd'. exists d'. split; [done | by eapply walk_sound].
Qed.

(** Where at most one rule leaves each version, the chains between two
    versions agree. *)
Lemma single_successor_routes_agree (a c : Version) (d : Doc) :
  single_successor Doc rules → routes_agree Doc rules a c d.
Proof.
  intros Hone d1 d2 H1. revert d2.
  induction H1 as [v d|a c r d d1 Hin Hfrom Hlt Hm IH]; intros d2 H2.
  - inversion H2 as [|? ? r2 ? ? Hin2 Hfrom2 Hlt2 Hm2]; subst; [done|].
    apply migrates_chain in Hm2 as [k Hk]. apply chain_le in Hk as [Hle _].
    by destruct (version_lt_not_le (rule_from Doc r2) (rule_to Doc r2)).
  - inversion H2 as [|? ? r2 ? ? Hin2 Hfrom2 Hlt2 Hm2]; subst.
    + apply migrates_chain in Hm as [k Hk]. apply chain_le in Hk as [Hle _].
      by destruct (version_lt_not_le (rule_from Doc r) (rule_to Doc r)).
    + assert (r2 = r) as -> by by apply Hone.
      by apply IH.
Qed.

End MigratorFacts.

Example migrate_example_rules :
  Migrator.migrate _ Migrator.example_rules DataModel.empty_card
      (0, 1, 0) (0, 3, 0)
    = Core.Ok (Migrator.stamp (0, 3, 0)
                 (Migrator.default_license DataModel.empty_card))
  ∧ Migrator.migrate _ Migrator.example_rules DataModel.empty_card
      (0, 3, 0) (0, 1, 0)
    = Core.Err Core.UnsupportedMigrationError
  ∧ Migrator.migrate _ Migrator.example_rules DataModel.empty_card
      (0, 1, 0) (0, 4, 0)
    = Core.Err Core.UnsupportedMigrationError
  ∧ Migrator.migrate _ Migrator.example_rules DataModel.empty_card
      (0, 4, 0) (0, 3, 0)
    = Core.Err Core.UnsupportedMigrationError.
Proof. repeat split; vm_compute; reflexivity. Qed.



(** *** setup.py: running bazel *)

Section SetupRunFacts.
Import Setup SetupRun.

(** What [finalize_options] leaves behind when it returns, and when it
    raises. *)
Lemma finalize_options_returned (h : Host) (s : State) :
  (finalize_options h s).1 = Returned tt →
  py_truthy (selected_executable h) = true
  ∧ self (finalize_options h s).2 = finalized h.
Proof.
  rewrite finalize_options_run; cbn zeta.
  unfold selected_executable, finalized, selected_executable.
  destruct (py_truthy (find_executable h "bazel")) eqn:Hb;
    [|destruct (py_truthy (find_executable h "bazelisk")) eqn:Hk];
    simpl; intros Hret; try discriminate; by rewrite ?Hb.
Qed.

Lemma finalize_options_raised (h : Host) (s : State) (e : Exn) :
  (finalize_options h s).1 = Raised e →
  py_truthy (find_executable h "bazel") = false
  ∧ py_truthy (find_executable h "bazelisk") = false
  ∧ (finalize_options h s).2
      = with_cmd s (find_executable h "bazelisk")
          [CallFindExecutable "bazel"; CallFindExecutable "bazelisk"].
Proof.
  rewrite finalize_options_run; cbn zeta.
  destruct (py_truthy (find_executable h "bazel")) eqn:Hb;
    [|destruct (py_truthy (find_executable h "bazelisk")) eqn:Hk];
    simpl; intros Hret; try discriminate; done.
Qed.

(** The ways through [run] once both attributes are set. *)
Lemma run_cases (sh : Shell) (w : World) (c : PyStr) (o : list string) :
  _bazel_cmd (self (command w)) = Some c →
  _additional_build_options (self (command w)) = Some o →
  run sh w =
    let b := build_call sh c o in
    let m := move_call sh c o in
    let w1 := {| command := command w; spawned := spawned w ++ [b] |} in
    let w2 := {| command := command w; spawned := spawned w ++ [b; m] |} in
    match launch sh (spawned w) b with
    | Exit code =>
        if Z.eqb code 0 then
          match launch sh (spawned w ++ [b]) m with
          | Exit code' =>
              if Z.eqb code' 0 then (Done tt, w2)
              else (Failed (CalledProcessError code' (argv m)), w2)
          | NotLaunched why => (Failed (SubprocessError why), w2)
          end
        else (Failed (CalledProcessError code (argv b)), w1)
    | NotLaunched why => (Failed (SubprocessError why), w1)
    end.
Proof.
  intros Hc Ho. unfold run, build_call, move_call, mct_dir.
  unfold mbind, R_bind, lift, get_bazel_cmd, get_additional_build_options,
    check_call; simpl.
  rewrite Hc; simpl. rewrite Ho; simpl.
  destruct (launch sh (spawned w) _) as [code|why]; [|done].
  destruct (Z.eqb code 0); [|done]. simpl.
  rewrite Hc; simpl. rewrite Ho; simpl.
  rewrite <- !app_assoc; simpl.
  destruct (launch sh _ _) as [code'|why]; [|done].
  by destruct (Z.eqb code' 0).
Qed.

(** Without one of the attributes [run] stops at the first read of it. *)
Lemma run_unset (sh : Shell) (w : World) :
  _bazel_cmd (self (command w)) = None
  ∨ _additional_build_options (self (command w)) = None →
  run sh w =
    (Failed (CommandExn (AttributeError
       (match _bazel_cmd (self (command w)) with
        | Some _ => "_additional_build_options"
        | None => "_bazel_cmd"
        end))), w).
Proof.
  intros Hunset. destruct w as [s sp]. unfold run.
  unfold mbind, R_bind, lift, get_bazel_cmd, get_additional_build_options;
    simpl in *.
  destruct (_bazel_cmd (self s)) as [c|]; simpl; [|done].
  destruct Hunset as [Hc|Ho]; [done|]. by rewrite Ho.
Qed.

(** X1.  A bazel invocation that exits with a non-zero code makes [run]
    raise [CalledProcessError] with that code and that invocation's
    argument list; when it is the build that fails, the script that moves
    the generated files is never started. *)
Theorem run_raises_called_process_error
    (sh : Shell) (w : World) (c : PyStr) (o : list string) (n : Z) :
  _bazel_cmd (self (command w)) = Some c →
  _additional_build_options (self (command w)) = Some o →
  n ≠ 0%Z →
  (launch sh (spawned w) (build_call sh c o) = Exit n →
     (run sh w).1
       = Failed (CalledProcessError n (argv (build_call sh c o)))
     ∧ spawned (run sh w).2 = spawned w ++ [build_call sh c o])
  ∧ (launch sh (spawned w) (build_call sh c o) = Exit 0 →
     launch sh (spawned w ++ [build_call sh c o]) (move_call sh c o)
       = Exit n →
     (run sh w).1
       = Failed (CalledProcessError n (argv (move_call sh c o)))
     ∧ spawned (run sh w).2
         = spawned w ++ [build_call sh c o; move_call sh c o]).
Proof.
  intros Hc Ho Hn. rewrite (run_cases sh w c o Hc Ho); cbn zeta.
  assert (Hz : Z.eqb n 0 = false) by by apply Z.eqb_neq.
  split.
  - intros ->. by rewrite Hz.
  - intros -> ->. simpl. by rewrite Hz.
Qed.

(** A Linux host with only [bazelisk], and a shell where the build exits
    with code 2. *)
Lemma run_raises_called_process_error_exit_2 :
  _bazel_cmd (self (command (world_of (finalize_options linux_bazelisk_host fresh).2)))
    = Some (Some "/usr/bin/bazelisk")
  ∧ _additional_build_options
      (self (command (world_of (finalize_options linux_bazelisk_host fresh).2)))
    = Some []
  ∧ 2%Z ≠ 0%Z
  ∧ (run failing_build_shell
       (world_of (finalize_options linux_bazelisk_host fresh).2)).1
    = Failed (CalledProcessError 2
        [Some "/usr/bin/bazelisk"; Some "build"; Some "--verbose_failures";
         Some ":model_card_py_pb2"])
  ∧ spawned (run failing_build_shell
       (world_of (finalize_options linux_bazelisk_host fresh).2)).2
    = [build_call failing_build_shell (Some "/usr/bin/bazelisk") []].
Proof.
  split; [reflexivity|]. split; [reflexivity|]. split; [discriminate|].
  apply (run_raises_called_process_error failing_build_shell
           (world_of (finalize_options linux_bazelisk_host fresh).2)
           (Some "/usr/bin/bazelisk") [] 2);
    [reflexivity | reflexivity | discriminate | reflexivity].
Defined.

(** X2.  After [finalize_options] has returned, [run] starts bazel's
    [build] of [:model_card_py_pb2] in the package's [proto] directory
    and, only if that exits with code zero, bazel's [run] of
    [:move_generated_files] in the package directory; both with the
    executable that was found (never [None] or empty) and with the
    platform's additional options between the sub-command and the target.
    [run] returns exactly when both exit with code zero. *)
Theorem run_after_finalize_options
    (h : Host) (sh : Shell) (s : State) (sp : list Spawn) :
  (finalize_options h s).1 = Returned tt →
  let w := {| command := (finalize_options h s).2; spawned := sp |} in
  let exe := selected_executable h in
  let b := build_call sh exe (options_on (platform_system h)) in
  let m := move_call sh exe (options_on (platform_system h)) in
  py_truthy exe = true
  ∧ (launch sh sp b = Exit 0 → spawned (run sh w).2 = sp ++ [b; m])
  ∧ (launch sh sp b ≠ Exit 0 → spawned (run sh w).2 = sp ++ [b])
  ∧ ((run sh w).1 = Done tt
     ↔ launch sh sp b = Exit 0 ∧ launch sh (sp ++ [b]) m = Exit 0).
Proof.
  intros Hret. cbn zeta.
  destruct (finalize_options_returned h s Hret) as [Hexe Hself].
  split; [done|].
  rewrite (run_cases sh _ (selected_executable h)
             (options_on (platform_system h)));
    [|by simpl; rewrite Hself..].
  cbn zeta. simpl.
  destruct (launch sh sp _) as [code|why] eqn:Hb.
  - destruct (Z.eqb_spec code 0) as [->|Hcode].
    + split; [|split].
      * intros _. destruct (launch sh (sp ++ _) _) as [code'|why]; [|done].
        by destruct (Z.eqb code' 0).
      * intros Hn. by destruct Hn.
      * destruct (launch sh (sp ++ _) _) as [code'|why] eqn:Hm.
        -- destruct (Z.eqb_spec code' 0) as [->|Hcode']; simpl; [done|].
           split; [done|]. intros [_ Heq]. injection Heq as ->. done.
        -- split; [done|]. intros [_ Heq]. discriminate.
    + split; [|split].
      * intros Heq. injection Heq as ->. done.
      * done.
      * simpl. split; [done|]. intros [Heq _]. injection Heq as ->. done.
  - split; [done|]. split; [done|]. simpl. split; [done|].
    intros [Heq _]. discriminate.
Qed.

(** A Linux host with only [bazelisk], and a shell where every process
    succeeds. *)
Lemma run_after_finalize_options_bazelisk :
  (finalize_options linux_bazelisk_host fresh).1 = Returned tt
  ∧ py_truthy (selected_executable linux_bazelisk_host) = true
  ∧ (launch good_shell []
       (build_call good_shell (selected_executable linux_bazelisk_host)
          (options_on (platform_system linux_bazelisk_host))) = Exit 0 →
     spawned (run good_shell
                {| command := (finalize_options linux_bazelisk_host fresh).2;
                   spawned := [] |}).2
     = [] ++ [build_call good_shell
                (selected_executable linux_bazelisk_host)
                (options_on (platform_system linux_bazelisk_host));
              move_call good_shell
                (selected_executable linux_bazelisk_host)
                (options_on (platform_system linux_bazelisk_host))])
  ∧ (launch good_shell []
       (build_call good_shell (selected_executable linux_bazelisk_host)
          (options_on (platform_system linux_bazelisk_host))) ≠ Exit 0 →
     spawned (run good_shell
                {| command := (finalize_options linux_bazelisk_host fresh).2;
                   spawned := [] |}).2
     = [] ++ [build_call good_shell
                (selected_executable linux_bazelisk_host)
                (options_on (platform_system linux_bazelisk_host))])
  ∧ ((run good_shell
        {| command := (finalize_options linux_bazelisk_host fresh).2;
           spawned := [] |}).1 = Done tt
     ↔ launch good_shell []
         (build_call good_shell (selected_executable linux_bazelisk_host)
            (options_on (platform_system linux_bazelisk_host))) = Exit 0
       ∧ launch good_shell
           ([] ++ [build_call good_shell
                     (selected_executable linux_bazelisk_host)
                     (options_on (platform_system linux_bazelisk_host))])
           (move_call good_shell (selected_executable linux_bazelisk_host)
              (options_on (platform_system linux_bazelisk_host))) = Exit 0).
Proof.
  split; [reflexivity|].
  apply (run_after_finalize_options linux_bazelisk_host good_shell fresh []).
  reflexivity.
Defined.

(** X3.  On a command object that lacks one of the two attributes, as
    before [finalize_options] has run, [run] raises [AttributeError] for
    the first attribute it reads and misses: for [_bazel_cmd] when that is
    not set, and for [_additional_build_options] when [_bazel_cmd] is set
    and the options are not.  It starts no process and leaves the state
    as it was. *)
Theorem run_unfinalized_raises_attribute_error (sh : Shell) (w : World) :
  _bazel_cmd (self (command w)) = None
  ∨ _additional_build_options (self (command w)) = None →
  (_bazel_cmd (self (command w)) = None →
     (run sh w).1 = Failed (CommandExn (AttributeError "_bazel_cmd")))
  ∧ (is_Some (_bazel_cmd (self (command w))) →
     (run sh w).1
       = Failed (CommandExn (AttributeError "_additional_build_options")))
  ∧ (run sh w).2 = w.
Proof.
  intros Hunset. rewrite (run_unset sh w Hunset). simpl.
  split; [|split; [|done]].
  - by intros ->.
  - by intros [c ->].
Qed.

(** A command object fresh from [initialize_options]. *)
Lemma run_unfinalized_raises_attribute_error_fresh :
  (_bazel_cmd (self (command (world_of fresh))) = None
   ∨ _additional_build_options (self (command (world_of fresh))) = None)
  ∧ (_bazel_cmd (self (command (world_of fresh))) = None →
       (run good_shell (world_of fresh)).1
         = Failed (CommandExn (AttributeError "_bazel_cmd")))
  ∧ (is_Some (_bazel_cmd (self (command (world_of fresh)))) →
       (run good_shell (world_of fresh)).1
         = Failed (CommandExn (AttributeError "_additional_build_options")))
  ∧ (run good_shell (world_of fresh)).2 = world_of fresh.
Proof.
  split; [by left|].
  apply (run_unfinalized_raises_attribute_error good_shell (world_of fresh)).
  by left.
Defined.

(** The two cases at work: a fresh command, and one on which
    [finalize_options] has raised. *)
Example run_unfinalized_examples :
  (run good_shell (world_of fresh)).1
    = Failed (CommandExn (AttributeError "_bazel_cmd"))
  ∧ (run good_shell (world_of (finalize_options bare_host fresh).2)).1
    = Failed (CommandExn (AttributeError "_additional_build_options"))
  ∧ posix_join "/" "model_card_toolkit" = "/model_card_toolkit"
  ∧ posix_join "/src/mct" "model_card_toolkit" = "/src/mct/model_card_toolkit".
Proof. repeat split; reflexivity. Qed.

(** X4.  Whether [finalize_options] returned or raised on a command that
    had no options yet, every process a following [run] starts has the
    executable that was found as its first argument, a non-empty file
    name: bazel is never started from [None]. *)
Theorem run_never_launches_without_executable
    (h : Host) (sh : Shell) (s : State) :
  _additional_build_options (self s) = None →
  Forall (λ p, ∃ exe, head (argv p) = Some (Some exe)
                      ∧ String.eqb exe EmptyString = false
                      ∧ selected_executable h = Some exe)
    (spawned (run sh (world_of (finalize_options h s).2)).2).
Proof.
  intros Hnone.
  destruct (finalize_options h s).1 as [[]|e] eqn:Hout.
  - destruct (finalize_options_returned h s Hout) as [Hexe Hself].
    rewrite (run_cases sh _ (selected_executable h)
               (options_on (platform_system h)));
      [|by simpl; rewrite Hself..].
    cbn zeta. simpl.
    assert (Hhead : ∃ exe, Some (selected_executable h) = Some (Some exe)
                           ∧ String.eqb exe EmptyString = false
                           ∧ selected_executable h = Some exe).
    { destruct (selected_executable h) as [exe|]; [|done].
      exists exe. simpl in Hexe. by apply negb_true_iff in Hexe. }
    destruct (launch sh [] _) as [code|why];
      [destruct (Z.eqb code 0);
       [destruct (launch sh _ _) as [code'|why];
        [destruct (Z.eqb code' 0)|]|]|];
      simpl; repeat constructor; exact Hhead.
  - destruct (finalize_options_raised h s e Hout) as (_ & _ & Hs).
    rewrite run_unset; [constructor|].
    right. rewrite Hs. simpl. done.
Qed.

(** A fresh command, finalized on a Linux host with only [bazelisk]. *)
Lemma run_never_launches_without_executable_bazelisk :
  _additional_build_options (self fresh) = None
  ∧ Forall (λ p, ∃ exe, head (argv p) = Some (Some exe)
                        ∧ String.eqb exe EmptyString = false
                        ∧ selected_executable linux_bazelisk_host = Some exe)
      (spawned (run good_shell
                  (world_of (finalize_options linux_bazelisk_host fresh).2)).2).
Proof.
  split; [reflexivity|].
  apply (run_never_launches_without_executable linux_bazelisk_host
           good_shell fresh).
  reflexivity.
Defined.

(** X5.  [run] never assigns to the command object and never looks an
    executable or the platform up: it leaves the object and its lookups
    as they were, and adds at most two processes to those started
    before. *)
Theorem run_leaves_command_unchanged (sh : Shell) (w : World) :
  command (run sh w).2 = command w
  ∧ spawned w `prefix_of` spawned (run sh w).2
  ∧ (length (spawned (run sh w).2) ≤ length (spawned w) + 2)%nat.
Proof.
  destruct (_bazel_cmd (self (command w))) as [c|] eqn:Hc;
    [destruct (_additional_build_options (self (command w))) as [o|] eqn:Ho|].
  - rewrite (run_cases sh w c o Hc Ho); cbn zeta.
    destruct (launch sh (spawned w) _) as [code|why];
      [destruct (Z.eqb code 0);
       [destruct (launch sh _ _) as [code'|why];
        [destruct (Z.eqb code' 0)|]|]|];
      simpl; (split; [done|]); (split; [by apply prefix_app_r|]);
      rewrite length_app; simpl; lia.
  - rewrite run_unset by by right. simpl.
    split; [done|]. split; [done|]. lia.
  - rewrite run_unset by by left. simpl.
    split; [done|]. split; [done|]. lia.
Qed.

(** X6.  When [finalize_options] returns, it would return from any other
    state of the command as well, and with the same attributes: the object
    it leaves depends on the host alone, so running it again changes
    nothing. *)
Theorem finalize_options_overwrites (h : Host) (s s' : State) :
  (finalize_options h s).1 = Returned tt →
  (finalize_options h s').1 = Returned tt
  ∧ self (finalize_options h s').2 = self (finalize_options h s).2
  ∧ self (finalize_options h (finalize_options h s).2).2
      = self (finalize_options h s).2.
Proof.
  intros Hret.
  assert (Hany : ∀ t, (finalize_options h t).1 = Returned tt).
  { intros t. revert Hret. rewrite !finalize_options_run; cbn zeta.
    destruct (py_truthy (find_executable h "bazel"));
      [|destruct (py_truthy (find_executable h "bazelisk"))]; done. }
  destruct (finalize_options_returned h s Hret) as [_ ->].
  split; [done|]. split.
  - by destruct (finalize_options_returned h s' (Hany s')) as [_ ->].
  - by destruct (finalize_options_returned h _ (Hany (finalize_options h s).2))
      as [_ ->].
Qed.

(** A macOS host with [bazel]: a fresh command, one finalized elsewhere
    before, and one finalized twice end up the same. *)
Lemma finalize_options_overwrites_darwin :
  (finalize_options darwin_host fresh).1 = Returned tt
  ∧ (finalize_options darwin_host
       (finalize_options linux_bazelisk_host fresh).2).1 = Returned tt
  ∧ self (finalize_options darwin_host
            (finalize_options linux_bazelisk_host fresh).2).2
      = self (finalize_options darwin_host fresh).2
  ∧ self (finalize_options darwin_host
            (finalize_options darwin_host fresh).2).2
      = self (finalize_options darwin_host fresh).2.
Proof.
  split; [reflexivity|].
  apply (finalize_options_overwrites darwin_host fresh
           (finalize_options linux_bazelisk_host fresh).2).
  reflexivity.
Defined.

(** X7.  When [finalize_options] raises, it has looked up [bazel] and then
    [bazelisk] and nothing else ([platform.system()] is not consulted), it
    has set [_bazel_cmd] to the empty result of the second lookup, and it
    has left [_additional_build_options] as it was, set or not. *)
Theorem finalize_options_raise_leaves_options
    (h : Host) (s : State) (e : Exn) :
  (finalize_options h s).1 = Raised e →
  _additional_build_options (self (finalize_options h s).2)
    = _additional_build_options (self s)
  ∧ _bazel_cmd (self (finalize_options h s).2)
      = Some (find_executable h "bazelisk")
  ∧ py_truthy (find_executable h "bazelisk") = false
  ∧ calls (finalize_options h s).2
      = calls s ++ [CallFindExecutable "bazel";
                    CallFindExecutable "bazelisk"].
Proof.
  intros Hraise.
  destruct (finalize_options_raised h s e Hraise) as (_ & Hk & ->).
  done.
Qed.

(** A command finalized on macOS and then again on a host with neither
    executable: the macOS option stays. *)
Lemma finalize_options_raise_leaves_options_bare :
  (finalize_options bare_host (finalize_options darwin_host fresh).2).1
    = Raised (RuntimeError bazel_missing_msg)
  ∧ _additional_build_options
      (self (finalize_options bare_host
               (finalize_options darwin_host fresh).2).2)
    = _additional_build_options (self (finalize_options darwin_host fresh).2)
  ∧ _bazel_cmd
      (self (finalize_options bare_host
               (finalize_options darwin_host fresh).2).2)
    = Some (find_executable bare_host "bazelisk")
  ∧ py_truthy (find_executable bare_host "bazelisk") = false
  ∧ calls (finalize_options bare_host
             (finalize_options darwin_host fresh).2).2
    = calls (finalize_options darwin_host fresh).2
        ++ [CallFindExecutable "bazel"; CallFindExecutable "bazelisk"].
Proof.
  split; [reflexivity|].
  apply (finalize_options_raise_leaves_options bare_host
           (finalize_options darwin_host fresh).2
           (RuntimeError bazel_missing_msg)).
  reflexivity.
Defined.

(** The arguments after the executable name the macOS option exactly on
    Darwin. *)
Lemma macos_option_in_arguments (sh : Shell) (exe : PyStr) (sys : string) :
  (Some "--macos_minimum_os=10.9"
     ∈ tail (argv (build_call sh exe (options_on sys)))
   ↔ sys = "Darwin")
  ∧ (Some "--macos_minimum_os=10.9"
       ∈ tail (argv (move_call sh exe (options_on sys)))
     ↔ sys = "Darwin").
Proof.
  unfold options_on, build_call, move_call; simpl.
  destruct (String.eqb_spec sys "Darwin") as [->|Hne]; simpl.
  - split; (split; [done|]); intros _;
      rewrite !elem_of_cons; by auto.
  - split; (split; [|done]); rewrite !elem_of_cons, elem_of_nil;
      intros H; repeat (destruct H as [H|H]; [discriminate|]); done.
Qed.

(** X8.  After [finalize_options] has returned, every bazel invocation of
    [run] passes [--macos_minimum_os=10.9] among its arguments exactly
    when [platform.system()] is ['Darwin']. *)
Theorem run_passes_macos_option_on_darwin
    (h : Host) (sh : Shell) (s : State) :
  (finalize_options h s).1 = Returned tt →
  Forall (λ p, Some "--macos_minimum_os=10.9" ∈ tail (argv p)
               ↔ platform_system h = "Darwin")
    (spawned (run sh (world_of (finalize_options h s).2)).2).
Proof.
  intros Hret.
  destruct (finalize_options_returned h s Hret) as [_ Hself].
  rewrite (run_cases sh _ (selected_executable h)
             (options_on (platform_system h)));
    [|by simpl; rewrite Hself..].
  cbn zeta. simpl.
  destruct (macos_option_in_arguments sh (selected_executable h)
              (platform_system h)) as [Hb Hm].
  destruct (launch sh [] _) as [code|why];
    [destruct (Z.eqb code 0);
     [destruct (launch sh _ _) as [code'|why];
      [destruct (Z.eqb code' 0)|]|]|];
    simpl; repeat (apply List.Forall_cons; [done|]); apply List.Forall_nil.
Qed.

(** A macOS host with [bazel], and a shell where every process succeeds. *)
Lemma run_passes_macos_option_on_darwin_host :
  (finalize_options darwin_host fresh).1 = Returned tt
  ∧ Forall (λ p, Some "--macos_minimum_os=10.9" ∈ tail (argv p)
                 ↔ platform_system darwin_host = "Darwin")
      (spawned (run good_shell
                  (world_of (finalize_options darwin_host fresh).2)).2).
Proof.
  split; [reflexivity|].
  apply (run_passes_macos_option_on_darwin darwin_host good_shell fresh).
  reflexivity.
Defined.

End SetupRunFacts.
